(** * tooz MySQL lock driver: a shallow embedding of [tooz/drivers/mysql.py]

    The driver keeps one row per held lock in the table [tooz_locks] and a
    per-coordinator list of held lock handles.  The embedding threads two
    pieces of state through every method: the coordinator object
    ([MySQLDriver], the Python object whose list [_acquired_locks] the lock
    handles mutate through their back-reference [coord]) and the [world]
    outside the process (the MySQL server, its connections, other clients). *)

From stdpp Require Import base decidable option list strings.
From Stdlib Require Import Lia.

Open Scope string_scope.
Open Scope list_scope.
Open Scope nat_scope.

(** ** The store as seen through pymysql *)

Module pymysql.

(** The exception classes the driver's [except] clauses tell apart; all of
    them are subclasses of [pymysql.MySQLError]. *)
Inductive error_class :=
| ProgrammingError
| IntegrityError
| OperationalError
| InternalError.

Record MySQLError := mk_error { err_class : error_class; errno : nat }.

Definition NO_SUCH_TABLE := mk_error ProgrammingError 1146.
Definition PARSE_ERROR := mk_error ProgrammingError 1064.
Definition DUP_ENTRY := mk_error IntegrityError 1062.
Definition TABLE_EXISTS := mk_error OperationalError 1050.
Definition SERVER_GONE := mk_error OperationalError 2006.
Definition CONN_HOST_ERROR := mk_error OperationalError 2003.

(** A row of [tooz_locks]; [name] is the primary key. *)
Record row := mk_row {
  r_name : string;
  created_at : nat;
  updated_at : nat;
  created_by : string
}.

(** The four statements the driver sends.  [UPDATE] is the statement of
    [MySQLLock.heartbeat], which has a WHERE clause and no SET clause. *)
Inductive stmt :=
| INSERT (name member : string)
| CREATE_TABLE
| DELETE (name member : string)
| UPDATE (name member : string).

Definition has_name (n : string) (r : row) : bool := bool_decide (r_name r = n).

Definition owned (n m : string) (r : row) : bool :=
  bool_decide (r_name r = n) && bool_decide (created_by r = m).

(** The server's answer to a statement at time [t]: the new table or the
    error.  [None] is a database without the table. *)
Definition run_stmt (s : stmt) (t : nat) (tbl : option (list row))
  : MySQLError + option (list row) :=
  match s with
  | INSERT n m =>
      match tbl with
      | None => inl NO_SUCH_TABLE
      | Some rows =>
          if List.existsb (has_name n) rows then inl DUP_ENTRY
          else inr (Some (rows ++ [mk_row n t t m]))
      end
  | CREATE_TABLE =>
      match tbl with
      | None => inr (Some [])
      | Some _ => inl TABLE_EXISTS
      end
  | DELETE n m =>
      match tbl with
      | None => inl NO_SUCH_TABLE
      | Some rows => inr (Some (List.filter (λ r, negb (owned n m r)) rows))
      end
  | UPDATE _ _ => inl PARSE_ERROR
  end.

(** What [pymysql.Connect] is called with. *)
Record connect_args := mk_args {
  a_unix_socket : option string;
  a_host : option string;
  a_port : nat;
  a_user : string;
  a_passwd : string;
  a_database : string
}.

Record Connection := mk_conn { c_args : connect_args; alive : bool }.

(** What happens at the server between two statements of this client. *)
Inductive event :=
| Idle
| Other (s : stmt)        (* a statement of another client *)
| Drop (c : nat)          (* connection [c] is lost *)
| Server (up : bool)      (* the server stops or starts accepting connections *)
| Tick.                   (* CURRENT_TIMESTAMP advances *)

Record world := mk_world {
  tooz_locks : option (list row);
  conns : list Connection;          (* connection objects, by identity *)
  server_up : bool;
  now : nat;                        (* CURRENT_TIMESTAMP *)
  log : list (nat * stmt);          (* statements sent, with their connection *)
  pending : list event
}.

Definition set_table (t : option (list row)) (w : world) : world :=
  mk_world t (conns w) (server_up w) (now w) (log w) (pending w).
Definition set_conns (cs : list Connection) (w : world) : world :=
  mk_world (tooz_locks w) cs (server_up w) (now w) (log w) (pending w).
Definition set_server (b : bool) (w : world) : world :=
  mk_world (tooz_locks w) (conns w) b (now w) (log w) (pending w).
Definition set_now (t : nat) (w : world) : world :=
  mk_world (tooz_locks w) (conns w) (server_up w) t (log w) (pending w).
Definition set_log (l : list (nat * stmt)) (w : world) : world :=
  mk_world (tooz_locks w) (conns w) (server_up w) (now w) l (pending w).
Definition set_pending (p : list event) (w : world) : world :=
  mk_world (tooz_locks w) (conns w) (server_up w) (now w) (log w) p.

Definition set_alive (b : bool) (c : Connection) : Connection :=
  mk_conn (c_args c) b.

Definition apply_event (e : event) (w : world) : world :=
  match e with
  | Idle => w
  | Other s =>
      match run_stmt s (now w) (tooz_locks w) with
      | inl _ => w
      | inr t => set_table t w
      end
  | Drop c => set_conns (alter (set_alive false) c (conns w)) w
  | Server up => set_server up w
  | Tick => set_now (S (now w)) w
  end.

Definition interfere (w : world) : world :=
  match pending w with
  | [] => w
  | e :: es => apply_event e (set_pending es w)
  end.

Definition is_alive (c : nat) (w : world) : bool :=
  match conns w !! c with
  | Some cn => alive cn
  | None => false
  end.

(** [with conn as cur: cur.execute(s)]: one statement through connection
    [c].  The next pending event lands first. *)
Definition execute (c : nat) (s : stmt) (w : world) : (MySQLError + unit) * world :=
  let w1 := interfere w in
  let w2 := set_log (log w1 ++ [(c, s)]) w1 in
  if is_alive c w2 then
    match run_stmt s (now w2) (tooz_locks w2) with
    | inl e => (inl e, w2)
    | inr t => (inr (), set_table t w2)
    end
  else (inl SERVER_GONE, w2).

(** [conn.connect()]: re-establish connection [c]. *)
Definition connect (c : nat) (w : world) : (MySQLError + unit) * world :=
  if server_up w then (inr (), set_conns (alter (set_alive true) c (conns w)) w)
  else (inl CONN_HOST_ERROR, w).

(** [conn.close()]. *)
Definition close (c : nat) (w : world) : world :=
  set_conns (alter (set_alive false) c (conns w)) w.

(** [pymysql.Connect(...)]: a new connection object. *)
Definition Connect (a : connect_args) (w : world) : (MySQLError + nat) * world :=
  if server_up w then (inr (length (conns w)), set_conns (conns w ++ [mk_conn a true]) w)
  else (inl CONN_HOST_ERROR, w).

End pymysql.

Import pymysql.

(** ** Python exceptions and results *)

Inductive exn :=
| Retry
| BlockingTimeout
| ToozError (cause : MySQLError)
| LockAcquireFailed (cause : MySQLError)
| ToozConnectionError (cause : MySQLError)
| AttributeError (attr : string)
| ValueError.

Inductive outcome (A : Type) :=
| Return (a : A)
| Raise (e : exn).
Arguments Return {A} a.
Arguments Raise {A} e.

(** ** The driver's objects *)

Record parsed_url := mk_url {
  hostname : string;
  port : option nat;
  path : string;
  username : string;
  password : string
}.

Record options := mk_options { unix_socket : option string }.

(** A lock handle.  The back-reference [coord] is the coordinator state the
    methods receive; a handle is told apart from every other one by the
    connection object it opened in [__init__]. *)
Record MySQLLock := mk_lock { l_name : string; l_conn : nat }.

#[global] Instance MySQLLock_eq_dec : EqDecision MySQLLock.
Proof. solve_decision. Defined.

Record MySQLDriver := mk_driver {
  _parsed_url : parsed_url;
  _options : options;
  _member_id : string;
  _acquired_locks : list MySQLLock;
  _conn : option nat              (* unset until [_start] *)
}.

Definition set_acquired_locks (ls : list MySQLLock) (d : MySQLDriver) : MySQLDriver :=
  mk_driver (_parsed_url d) (_options d) (_member_id d) ls (_conn d).

Definition set_conn (c : nat) (d : MySQLDriver) : MySQLDriver :=
  mk_driver (_parsed_url d) (_options d) (_member_id d) (_acquired_locks d) (Some c).

Definition state : Type := MySQLDriver * world.

Definition MYSQL_DEFAULT_PORT : nat := 3306.

(** [MySQLDriver.__init__] *)
Definition MySQLDriver_init (member_id : string) (u : parsed_url) (o : options)
  : MySQLDriver :=
  mk_driver u o member_id [] None.

(** The keyword arguments [MySQLDriver.get_connection] hands to
    [pymysql.Connect]: the socket when the option is set and not empty, the
    host otherwise. *)
Definition connection_args (u : parsed_url) (o : options) : connect_args :=
  let host := hostname u in
  let port :=
    match port u with
    | Some (S p) => S p
    | _ => MYSQL_DEFAULT_PORT
    end in
  let dbname := match path u with String _ rest => rest | EmptyString => EmptyString end in
  match unix_socket o with
  | Some (String a sock) =>
      mk_args (Some (String a sock)) None port (username u) (password u) dbname
  | _ => mk_args None (Some host) port (username u) (password u) dbname
  end.

(** [MySQLDriver.get_connection] *)
Definition get_connection (u : parsed_url) (o : options) (w : world)
  : outcome nat * world :=
  match Connect (connection_args u o) w with
  | (inr c, w') => (Return c, w')
  | (inl e, w') => (Raise (ToozConnectionError e), w')
  end.

(** [MySQLDriver._start] *)
Definition MySQLDriver_start (s : state) : outcome unit * state :=
  let '(d, w) := s in
  match get_connection (_parsed_url d) (_options d) w with
  | (Return c, w') => (Return (), (set_conn c d, w'))
  | (Raise e, w') => (Raise e, (d, w'))
  end.

(** [MySQLLock.__init__] *)
Definition MySQLLock_init (name : string) (s : state) : outcome MySQLLock * state :=
  let '(coord, w) := s in
  match get_connection (_parsed_url coord) (_options coord) w with
  | (Return c, w') => (Return (mk_lock name c), (coord, w'))
  | (Raise e, w') => (Raise e, (coord, w'))
  end.

(** [MySQLDriver.get_lock] *)
Definition MySQLDriver_get_lock (name : string) (s : state) : outcome MySQLLock * state :=
  MySQLLock_init name s.

(** The property [MySQLLock.acquired]: [self in self.coord._acquired_locks]. *)
Definition acquired (self : MySQLLock) (coord : MySQLDriver) : bool :=
  bool_decide (self ∈ _acquired_locks coord).

(** [list.remove(x)]: drops the first occurrence, [None] for Python's
    ValueError when there is none. *)
Fixpoint list_remove_first (x : MySQLLock) (l : list MySQLLock) : option (list MySQLLock) :=
  match l with
  | [] => None
  | y :: l' =>
      if decide (y = x) then Some l'
      else match list_remove_first x l' with
           | Some r => Some (y :: r)
           | None => None
           end
  end.

(** *** Attribute lookup on a lock handle *)

Inductive value :=
| VBool (b : bool)
| VStr (s : string)
| VInt (n : nat)
| VConn (c : nat)
| VCoord
| VMethod.

Definition truthy (v : value) : bool :=
  match v with
  | VBool b => b
  | VStr s => negb (bool_decide (s = ""))
  | VInt n => negb (bool_decide (n = 0))
  | _ => true
  end.

(** Modelled from the spec: the base class [tooz.locking.Lock] is not among
    the sources.  It gives a handle its [name] and the lock protocol
    ([acquire], [release], [heartbeat], the context-manager methods); the
    spec's design note on the liveness refresh records that the attribute the
    refresh tests is "inconsistently named", so the base class is taken to
    add no attribute of that spelling. *)
Definition Lock_methods : list string :=
  ["acquire"; "release"; "heartbeat"; "__enter__"; "__exit__"].

(** [self.<attr>] on a [MySQLLock]. *)
Definition MySQLLock_getattr (self : MySQLLock) (coord : MySQLDriver) (attr : string)
  : outcome value :=
  if bool_decide (attr = "name") then Return (VStr (l_name self))
  else if bool_decide (attr = "coord") then Return VCoord
  else if bool_decide (attr = "_conn") then Return (VConn (l_conn self))
  else if bool_decide (attr = "acquired") then Return (VBool (acquired self coord))
  else if bool_decide (attr = "MYSQL_DEFAULT_PORT") then Return (VInt MYSQL_DEFAULT_PORT)
  else if bool_decide (attr = "__init__") then Return VMethod
  else if bool_decide (attr = "__del__") then Return VMethod
  else if bool_decide (attr ∈ Lock_methods) then Return VMethod
  else Raise (AttributeError attr).

(** ** The retry decorator *)

(** Modelled from the spec: [tooz.drivers._retry] ([retry], [Retry]) is not
    among the sources.  Per the spec the decorated function is called again
    whenever it raises [Retry], until the deadline derived from [blocking]
    elapses, "at which point the loop surfaces a timeout failure"; every
    other exception and every return value passes through.  The deadline is
    wall-clock time: [deadline] is the number of further attempts it still
    admits, [None] when there is no deadline.  [fuel] bounds the unfolding
    only; [None] as a result means the loop is still running. *)
Fixpoint retry (fuel : nat) (deadline : option nat)
    (f : state → outcome bool * state) (s : state) : option (outcome bool * state) :=
  match fuel with
  | 0 => None
  | S fuel' =>
      match f s with
      | (Raise Retry, s') =>
          match deadline with
          | None => retry fuel' None f s'
          | Some (S d) => retry fuel' (Some d) f s'
          | Some 0 => Some (Raise BlockingTimeout, s')
          end
      | r => Some r
      end
  end.

(** ** MySQLLock *)

(** The [try] statement of [_lock]: what it returns or raises, or [None]
    when control leaves it at its end. *)
Definition _lock_try (self : MySQLLock) (coord : MySQLDriver) (w : world)
  : option (outcome bool) * state :=
  match execute (l_conn self) (INSERT (l_name self) (_member_id coord)) w with
  | (inr _, w1) =>
      (Some (Return true),
       (set_acquired_locks (_acquired_locks coord ++ [self]) coord, w1))
  | (inl e, w1) =>
      match err_class e with
      | ProgrammingError =>
          match execute (l_conn self) CREATE_TABLE w1 with
          | (inr _, w2) => (Some (Raise Retry), (coord, w2))
          | (inl e', w2) => (Some (Raise (ToozError e')), (coord, w2))
          end
      | IntegrityError => (Some (Raise (LockAcquireFailed e)), (coord, w1))
      | _ =>
          match connect (l_conn self) w1 with
          | (inr _, w2) => (Some (Raise Retry), (coord, w2))
          | (inl e', w2) => (Some (Raise (ToozError e')), (coord, w2))
          end
      end
  end.

(** The inner function [_lock] of [MySQLLock.acquire]. *)
Definition _lock (blocking : bool) (self : MySQLLock) (s : state) : outcome bool * state :=
  let '(coord, w) := s in
  if acquired self coord then
    if blocking then (Raise Retry, s) else (Return false, s)
  else
    match _lock_try self coord w with
    | (Some r, s') => (r, s')
    | (None, s') => if blocking then (Raise Retry, s') else (Return false, s')
    end.

(** [MySQLLock.acquire]: [_lock] under [_retry.retry(stop_max_delay=blocking)]. *)
Definition MySQLLock_acquire (fuel : nat) (deadline : option nat) (blocking : bool)
    (self : MySQLLock) (s : state) : option (outcome bool * state) :=
  retry fuel deadline (_lock blocking self) s.

(** [MySQLLock.release] *)
Definition MySQLLock_release (self : MySQLLock) (s : state) : outcome bool * state :=
  let '(coord, w) := s in
  if negb (acquired self coord) then (Return false, s)
  else
    match execute (l_conn self) (DELETE (l_name self) (_member_id coord)) w with
    | (inr _, w1) =>
        match list_remove_first self (_acquired_locks coord) with
        | Some ls => (Return true, (set_acquired_locks ls coord, w1))
        | None => (Raise ValueError, (coord, w1))
        end
    | (inl _, w1) =>
        match connect (l_conn self) w1 with
        | (inr _, w2) => (Raise Retry, (coord, w2))
        | (inl e', w2) => (Raise (ToozError e'), (coord, w2))
        end
    end.

(** [MySQLLock.heartbeat] *)
Definition MySQLLock_heartbeat (self : MySQLLock) (s : state) : outcome unit * state :=
  let '(coord, w) := s in
  match MySQLLock_getattr self coord "aquired" with
  | Raise e => (Raise e, s)
  | Return v =>
      if truthy v then
        match _conn coord with
        | None => (Raise (AttributeError "_conn"), s)
        | Some cc =>
            match execute cc (UPDATE (l_name self) (_member_id coord)) w with
            | (inr _, w1) => (Return (), (coord, w1))
            | (inl _, w1) =>
                match connect (l_conn self) w1 with
                | (inr _, w2) => (Raise Retry, (coord, w2))
                | (inl e', w2) => (Raise (ToozError e'), (coord, w2))
                end
            end
        end
      else (Return (), s)
  end.

(** ** MySQLDriver *)

(** [for _lock in self._acquired_locks: try: body(_lock) except: continue].
    Python's list iterator keeps an index into the live list: each round
    reads [self._acquired_locks[i]] as the list is then, and the loop ends
    when [i] is past its end.  Whatever [body] raises is dropped; its effect
    on the state stays. *)
Fixpoint for_acquired_locks {A : Type} (fuel : nat)
    (body : MySQLLock → state → outcome A * state) (i : nat) (s : state)
  : option state :=
  match _acquired_locks (fst s) !! i with
  | None => Some s
  | Some l =>
      match fuel with
      | 0 => None
      | S fuel' => for_acquired_locks fuel' body (S i) (snd (body l s))
      end
  end.

(** [MySQLDriver._stop] *)
Definition MySQLDriver_stop (s : state) : option (outcome unit * state) :=
  match for_acquired_locks (length (_acquired_locks (fst s))) MySQLLock_release 0 s with
  | None => None
  | Some (d, w) =>
      match _conn d with
      | Some c => Some (Return (), (d, close c w))
      | None => Some (Raise (AttributeError "_conn"), (d, w))
      end
  end.

(** [MySQLDriver.heartbeat], over the [heartbeat] method the held objects
    answer with. *)
Definition MySQLDriver_heartbeat_with
    (lock_heartbeat : MySQLLock → state → outcome unit * state) (s : state)
  : option (outcome unit * state) :=
  match for_acquired_locks (length (_acquired_locks (fst s))) lock_heartbeat 0 s with
  | None => None
  | Some s' => Some (Return (), s')
  end.

Definition MySQLDriver_heartbeat (s : state) : option (outcome unit * state) :=
  MySQLDriver_heartbeat_with MySQLLock_heartbeat s.

(** ** Vocabulary for the statements *)

Definition rows_of (w : world) : list row := default [] (tooz_locks w).

(** No other client acts during the call. *)
Definition quiet (w : world) : Prop := pending w = [].



(** ** A test bench: two coordinators on one server *)

Definition url0 : parsed_url := mk_url "db.example" None "/tooz" "tooz" "secret".
Definition opts0 : options := mk_options None.
Definition args0 : connect_args :=
  mk_args None (Some "db.example") 3306 "tooz" "secret" "tooz".
Definition conn_up : Connection := mk_conn args0 true.
Definition conn_lost : Connection := mk_conn args0 false.

(** Coordinator a owns connection 0 and the handles on connections 1, 4, 5;
    coordinator b owns connection 2 and the handle on connection 3. *)
Definition coord_a : MySQLDriver := mk_driver url0 opts0 "member-a" [] (Some 0).
Definition lock_a : MySQLLock := mk_lock "a" 1.
Definition lock_a2 : MySQLLock := mk_lock "b" 4.
Definition lock_a3 : MySQLLock := mk_lock "c" 5.

Definition six_up : list Connection :=
  [conn_up; conn_up; conn_up; conn_up; conn_up; conn_up].

Definition row_a : row := mk_row "a" 7 7 "member-a".

Definition world_empty : world := mk_world (Some []) six_up true 7 [] [].
Definition world_a : world := mk_world (Some [row_a]) six_up true 7 [] [].
Definition coord_a_holding : MySQLDriver := set_acquired_locks [lock_a] coord_a.


Definition row_b2 : row := mk_row "b" 7 7 "member-a".
Definition row_c3 : row := mk_row "c" 7 7 "member-a".

(** Coordinator a holds "a", "b" and "c", acquired in that order. *)
Definition coord_a_three : MySQLDriver :=
  set_acquired_locks [lock_a; lock_a2; lock_a3] coord_a.
Definition world_abc : world :=
  mk_world (Some [row_a; row_b2; row_c3]) six_up true 7 [] [].

(** The connection of handle [lock_a] is lost; the server is reachable. *)
Definition world_a_lost : world :=
  mk_world (Some [row_a])
    [conn_up; conn_lost; conn_up; conn_up; conn_up; conn_up] true 7 [] [].


(** A coordinator that has not been started, on a server with no
    connections yet. *)
Definition coord_new : MySQLDriver := MySQLDriver_init "member-a" url0 opts0.
Definition world_boot : world := mk_world (Some []) [] true 7 [] [].

(** A lock heartbeat that fails with a store error. *)
Definition heartbeat_store_error (l : MySQLLock) (s : state) : outcome unit * state :=
  (Raise (ToozError SERVER_GONE), s).

(** ** Several callers on one name *)





(** The primary key: no two rows share a name. *)
Definition unique_names (w : world) : Prop := NoDup (map r_name (rows_of w)).


(** ** Vocabulary for the loops *)




(** * Properties *)

(** ** Facts about the store *)

Lemma interfere_quiet w : quiet w → interfere w = w.
Proof. unfold quiet, interfere. by intros ->. Qed.

Lemma execute_quiet c s w :
  quiet w →
  execute c s w =
    let w2 := set_log (log w ++ [(c, s)]) w in
    if is_alive c w then
      match run_stmt s (now w) (tooz_locks w) with
      | inl e => (inl e, w2)
      | inr t => (inr (), set_table t w2)
      end
    else (inl SERVER_GONE, w2).
Proof. intros Hq. unfold execute. by rewrite interfere_quiet. Qed.

Lemma execute_frame c s w r w' :
  quiet w → execute c s w = (r, w') →
  quiet w' ∧ now w' = now w ∧ conns w' = conns w ∧ server_up w' = server_up w
  ∧ log w' = log w ++ [(c, s)].
Proof.
  intros Hq. rewrite execute_quiet by done. cbn zeta.
  destruct (is_alive c w); [destruct (run_stmt _ _ _)|];
    intros [= <- <-]; done.
Qed.



(** ** The retry loop *)

(** The result of the loop is the result of its last call, made in a state
    reached through calls that raised [Retry]. *)
Lemma retry_last (I : state → Prop) (f : state → outcome bool * state) :
  (∀ s s', I s → f s = (Raise Retry, s') → I s') →
  ∀ fuel deadline s r s',
    I s → retry fuel deadline f s = Some (r, s') →
    ∃ s0, I s0 ∧ (f s0 = (r, s') ∧ r ≠ Raise Retry
                  ∨ f s0 = (Raise Retry, s') ∧ r = Raise BlockingTimeout).
Proof.
  intros Hstep. induction fuel as [|fuel IH]; intros deadline s r s' HI; [done|].
  cbn. destruct (f s) as [o s1] eqn:Ef.
  destruct o as [b|e].
  { intros [= <- <-]. exists s. split; [done|]. left. by split. }
  destruct e;
    try (intros [= <- <-]; exists s; split; [done|]; left; by split).
  destruct deadline as [[|d]|].
  - intros [= <- <-]. exists s. split; [done|]. by right.
  - apply IH. eauto.
  - apply IH. eauto.
Qed.

Lemma retry_return fuel deadline f s r s' :
  f s = (r, s') → r ≠ Raise Retry → retry (S fuel) deadline f s = Some (r, s').
Proof.
  intros Ef Hr. cbn. rewrite Ef.
  destruct r as [b|e]; [done|]. destruct e; done.
Qed.

Lemma retry_again fuel d f s s' :
  f s = (Raise Retry, s') →
  retry (S fuel) (Some (S d)) f s = retry fuel (Some d) f s'
  ∧ retry (S fuel) None f s = retry fuel None f s'
  ∧ retry (S fuel) (Some 0) f s = Some (Raise BlockingTimeout, s').
Proof. intros Ef. cbn. by rewrite Ef. Qed.

(** ** One attempt of [acquire] *)









(** Control never leaves the [try] statement of [_lock] at its end: the
    lines after it are not reached. *)
Lemma lock_try_never_falls_through self coord w :
  fst (_lock_try self coord w) ≠ None.
Proof.
  unfold _lock_try.
  destruct (execute _ (INSERT _ _) w) as [[e|[]] w1]; [|done].
  destruct (err_class e); [| done | |].
  - by destruct (execute _ CREATE_TABLE w1) as [[e2|[]] w2].
  - by destruct (connect _ w1) as [[e2|[]] w2].
  - by destruct (connect _ w1) as [[e2|[]] w2].
Qed.

(** ** Acquisition *)











(** ** Release *)

Lemma list_remove_first_elem x l :
  x ∈ l → ∃ ls, list_remove_first x l = Some ls ∧ length l = S (length ls).
Proof.
  induction l as [|y l IH]; [by intros ?%elem_of_nil|].
  intros Hx. cbn. destruct (decide (y = x)) as [->|Hne]; [by eexists|].
  apply elem_of_cons in Hx as [->|Hx]; [done|].
  destruct (IH Hx) as (ls & -> & Hlen). eexists. split; [done|]. cbn. lia.
Qed.


Lemma acquired_true self coord :
  acquired self coord = true ↔ self ∈ _acquired_locks coord.
Proof. unfold acquired. apply bool_decide_eq_true. Qed.

Lemma acquired_false self coord :
  acquired self coord = false ↔ self ∉ _acquired_locks coord.
Proof. unfold acquired. apply bool_decide_eq_false. Qed.



(** C7: release of a held lock whose connection is lost while the server is
    reachable reconnects once and then raises the Retry signal to its
    caller; the DELETE is not sent again, the row stays and the lock stays in
    the coordinator's list. *)
Theorem release_reconnect_raises_Retry self coord w :
  acquired self coord = true → quiet w →
  is_alive (l_conn self) w = false → server_up w = true →
  MySQLLock_release self (coord, w)
  = (Raise Retry,
     (coord,
      set_conns (alter (set_alive true) (l_conn self) (conns w))
        (set_log (log w ++ [(l_conn self, DELETE (l_name self) (_member_id coord))]) w))).
Proof.
  intros Ha Hq Hal Hup. unfold MySQLLock_release.
  rewrite Ha, execute_quiet by done. cbn. rewrite Hal.
  unfold connect. cbn. by rewrite Hup.
Qed.

Lemma release_reconnect_raises_Retry_witness :
  MySQLLock_release lock_a (coord_a_holding, world_a_lost)
  = (Raise Retry,
     (coord_a_holding,
      mk_world (Some [row_a]) six_up true 7 [(1, DELETE "a" "member-a")] [])).
Proof.
  apply (release_reconnect_raises_Retry lock_a coord_a_holding world_a_lost);
    reflexivity.
Defined.

(** The same failure in acquire, for comparison: the reconnect is followed by
    another attempt, and a failed reconnect by ToozError. *)
Lemma acquire_reconnects self coord w e w1 :
  acquired self coord = false →
  execute (l_conn self) (INSERT (l_name self) (_member_id coord)) w = (inl e, w1) →
  err_class e = OperationalError ∨ err_class e = InternalError →
  (∀ w2, connect (l_conn self) w1 = (inr (), w2) →
     ∀ fuel blocking,
       MySQLLock_acquire (S fuel) None blocking self (coord, w)
       = MySQLLock_acquire fuel None blocking self (coord, w2))
  ∧ (∀ e' w2, connect (l_conn self) w1 = (inl e', w2) →
       ∀ fuel deadline blocking,
         MySQLLock_acquire (S fuel) deadline blocking self (coord, w)
         = Some (Raise (ToozError e'), (coord, w2))).
Proof.
  intros Hna He Hc. split.
  - intros w2 Hcon fuel blocking. unfold MySQLLock_acquire.
    assert (_lock blocking self (coord, w) = (Raise Retry, (coord, w2))) as Hl.
    { unfold _lock, _lock_try. rewrite Hna, He. by destruct Hc as [-> | ->]; rewrite Hcon. }
    by destruct (retry_again fuel 0 _ _ _ Hl) as (_ & -> & _).
  - intros e' w2 Hcon fuel deadline blocking. apply retry_return; [|done].
    unfold _lock, _lock_try. rewrite Hna, He. by destruct Hc as [-> | ->]; rewrite Hcon.
Qed.

(** ** The loops over the held locks *)

Lemma release_locks_length self s :
  length (_acquired_locks (fst (snd (MySQLLock_release self s))))
  ≤ length (_acquired_locks (fst s)).
Proof.
  destruct s as [coord w]. unfold MySQLLock_release.
  destruct (acquired self coord) eqn:Ha; cbn; [|done].
  destruct (execute _ _ w) as [[e|[]] w1].
  - by destruct (connect _ w1) as [[e2|[]] w2].
  - apply acquired_true, list_remove_first_elem in Ha as (ls & -> & Hlen).
    cbn. lia.
Qed.

(** A body that never lengthens the list lets the loop end within the fuel
    of the list's length. *)
Lemma for_acquired_locks_total {A} (body : MySQLLock → state → outcome A * state) :
  (∀ l s, length (_acquired_locks (fst (snd (body l s))))
          ≤ length (_acquired_locks (fst s))) →
  ∀ fuel i s,
    length (_acquired_locks (fst s)) - i ≤ fuel →
    is_Some (for_acquired_locks fuel body i s).
Proof.
  intros Hbody. induction fuel as [|fuel IH]; intros i s Hfuel; cbn.
  - destruct (_ !! i) eqn:Hi; [|done].
    apply lookup_lt_Some in Hi. lia.
  - destruct (_ !! i) eqn:Hi; [|done].
    apply IH. specialize (Hbody m s). lia.
Qed.

(** A body that leaves the list alone is run on every lock, in list order,
    whatever it returns or raises. *)
Lemma for_acquired_locks_all {A} (body : MySQLLock → state → outcome A * state) :
  (∀ l s, _acquired_locks (fst (snd (body l s))) = _acquired_locks (fst s)) →
  ∀ fuel i s,
    length (_acquired_locks (fst s)) - i ≤ fuel →
    for_acquired_locks fuel body i s
    = Some (fold_left (λ s l, snd (body l s)) (drop i (_acquired_locks (fst s))) s).
Proof.
  intros Hbody. induction fuel as [|fuel IH]; intros i s Hfuel; cbn.
  - destruct (_ !! i) eqn:Hi.
    + apply lookup_lt_Some in Hi. lia.
    + apply lookup_ge_None in Hi. by rewrite drop_ge.
  - destruct (_ !! i) eqn:Hi.
    + rewrite (drop_S _ _ _ Hi). cbn. rewrite IH by (rewrite Hbody; lia).
      by rewrite Hbody.
    + apply lookup_ge_None in Hi. by rewrite drop_ge.
Qed.

(** [_stop] always comes back. *)
Lemma stop_total s : is_Some (MySQLDriver_stop s).
Proof.
  unfold MySQLDriver_stop.
  destruct (for_acquired_locks_total MySQLLock_release release_locks_length
              (length (_acquired_locks (fst s))) 0 s) as [[d w] ->]; [lia|].
  by destruct (_conn d).
Qed.

(** C5: with the locks "a", "b", "c" held, acquired in that order, [_stop]
    releases "a" and "c" and closes the coordinator's connection; lock "b" is
    never handed to release, stays in the list of held locks and keeps its
    row. *)
Theorem stop_skips_held_lock :
  MySQLDriver_stop (coord_a_three, world_abc)
  = Some (Return (),
          (set_acquired_locks [lock_a2] coord_a,
           mk_world (Some [row_b2])
             [conn_lost; conn_up; conn_up; conn_up; conn_up; conn_up] true 7
             [(1, DELETE "a" "member-a"); (5, DELETE "c" "member-a")] [])).
Proof. reflexivity. Qed.

(** ** Heartbeat *)

Lemma heartbeat_getattr_fails self s :
  MySQLLock_heartbeat self s = (Raise (AttributeError "aquired"), s).
Proof. by destruct s. Qed.

(** C6: the heartbeat of a lock raises AttributeError for the attribute
    "aquired", whether the lock is held or not; nothing is sent to the
    store. *)
Theorem lock_heartbeat_raises_AttributeError self s :
  MySQLLock_heartbeat self s = (Raise (AttributeError "aquired"), s)
  ∧ log (snd (snd (MySQLLock_heartbeat self s))) = log (snd s).
Proof. by rewrite heartbeat_getattr_fails. Qed.

(** C10: the driver's heartbeat returns normally in every state.  Each held
    lock's heartbeat is run, in list order, and whatever it raises is
    dropped: with the heartbeat of [MySQLLock], which raises AttributeError,
    and with any other heartbeat method that leaves the list alone. *)
Theorem driver_heartbeat_never_raises :
  (∀ s, MySQLDriver_heartbeat s = Some (Return (), s))
  ∧ (∀ lock_heartbeat,
       (∀ l s, _acquired_locks (fst (snd (lock_heartbeat l s)))
               = _acquired_locks (fst s)) →
       ∀ s, MySQLDriver_heartbeat_with lock_heartbeat s
            = Some (Return (),
                    fold_left (λ s l, snd (lock_heartbeat l s))
                      (_acquired_locks (fst s)) s)).
Proof.
  assert (∀ lock_heartbeat,
       (∀ l s, _acquired_locks (fst (snd (lock_heartbeat l s)))
               = _acquired_locks (fst s)) →
       ∀ s, MySQLDriver_heartbeat_with lock_heartbeat s
            = Some (Return (),
                    fold_left (λ s l, snd (lock_heartbeat l s))
                      (_acquired_locks (fst s)) s)) as Hall.
  { intros hb Hhb s. unfold MySQLDriver_heartbeat_with.
    rewrite (for_acquired_locks_all hb Hhb) by lia. by rewrite drop_0. }
  split; [|done].
  intros s. unfold MySQLDriver_heartbeat. rewrite Hall.
  - f_equal. f_equal. generalize (_acquired_locks (fst s)) at 1.
    intros ls. induction ls as [|l ls IH]; [done|]. cbn.
    by rewrite heartbeat_getattr_fails.
  - intros l s'. by rewrite heartbeat_getattr_fails.
Qed.

Lemma driver_heartbeat_never_raises_witness :
  MySQLDriver_heartbeat_with heartbeat_store_error (coord_a_three, world_abc)
  = Some (Return (), (coord_a_three, world_abc)).
Proof.
  exact (proj2 driver_heartbeat_never_raises heartbeat_store_error
           (λ _ _, eq_refl) (coord_a_three, world_abc)).
Defined.

(** ** Connections *)






(** ** Mutual exclusion *)

Lemma existsb_has_name n rows :
  List.existsb (has_name n) rows = false ↔ n ∉ map r_name rows.
Proof.
  induction rows as [|r rows IH]; cbn.
  - split; [intros _; apply not_elem_of_nil|done].
  - rewrite orb_false_iff, IH, not_elem_of_cons. unfold has_name.
    rewrite bool_decide_eq_false. intuition congruence.
Qed.


Lemma run_stmt_unique s t tbl tbl' :
  NoDup (map r_name (default [] tbl)) →
  run_stmt s t tbl = inr tbl' →
  NoDup (map r_name (default [] tbl')).
Proof.
  intros Hnd. destruct s as [n m| |n m|n m]; cbn.
  - destruct tbl as [rows|]; [|done].
    destruct (List.existsb _ rows) eqn:Hx; [done|]. intros [= <-]. cbn in *.
    rewrite map_app. cbn. apply NoDup_app. split; [done|]. split.
    + intros x Hin Hx'. apply list_elem_of_singleton in Hx' as ->.
      by apply existsb_has_name in Hx.
    + apply NoDup_singleton.
  - destruct tbl; [done|]. intros [= <-]. apply NoDup_nil_2.
  - destruct tbl as [rows|]; [|done]. intros [= <-]. cbn in *.
    induction rows as [|r rows IH]; cbn; [done|].
    cbn in Hnd. apply NoDup_cons in Hnd as [Hr Hnd].
    destruct (negb _); cbn; [|auto]. apply NoDup_cons. split; [|auto].
    intros Hin. apply Hr. apply list_elem_of_fmap in Hin as (r' & -> & Hin).
    apply list_elem_of_fmap. exists r'. split; [done|].
    apply list_elem_of_In, filter_In in Hin as [Hin _]. by apply list_elem_of_In.
  - done.
Qed.

Lemma interfere_unique w : unique_names w → unique_names (interfere w).
Proof.
  unfold unique_names, rows_of, interfere.
  destruct (pending w) as [|[] es]; cbn; try done.
  destruct (run_stmt _ _ _) eqn:E; cbn; [done|].
  intros Hnd. by eapply run_stmt_unique.
Qed.

(** Any statement, after anything another client does, leaves the names in
    the table distinct. *)
Lemma execute_unique c s w : unique_names w → unique_names (snd (execute c s w)).
Proof.
  intros Hu%interfere_unique. unfold execute.
  destruct (is_alive _ _); [|done].
  destruct (run_stmt _ _ _) eqn:E; cbn; [done|].
  unfold unique_names, rows_of in *. cbn in *. by eapply run_stmt_unique.
Qed.

Lemma connect_unique c w : unique_names w → unique_names (snd (connect c w)).
Proof. unfold connect. by destruct (server_up w). Qed.








(** * Further properties of the driver *)

(** ** Connecting *)

(** The arguments of [pymysql.Connect]: the port falls back to 3306 when the
    URL has none or has 0; the database is the URL path without its first
    character; the socket is used exactly when the option is set and not
    empty, and the host otherwise, never both. *)
Theorem connection_args_edges u o :
  (port u = None ∨ port u = Some 0 → a_port (connection_args u o) = 3306)
  ∧ (∀ p, port u = Some (S p) → a_port (connection_args u o) = S p)
  ∧ (∀ c rest, path u = String c rest → a_database (connection_args u o) = rest)
  ∧ (path u = "" → a_database (connection_args u o) = "")
  ∧ (unix_socket o = None ∨ unix_socket o = Some "" →
     a_unix_socket (connection_args u o) = None
     ∧ a_host (connection_args u o) = Some (hostname u))
  ∧ (∀ sock, unix_socket o = Some sock → sock ≠ "" →
     a_unix_socket (connection_args u o) = Some sock
     ∧ a_host (connection_args u o) = None).
Proof.
  unfold connection_args. split; [|split; [|split; [|split; [|split]]]].
  - intros [-> | ->]; by destruct (unix_socket o) as [[|]|].
  - intros p ->. by destruct (unix_socket o) as [[|]|].
  - intros c rest ->. by destruct (unix_socket o) as [[|]|].
  - intros ->. by destruct (unix_socket o) as [[|]|].
  - by intros [-> | ->].
  - intros sock Hs Hne. destruct sock; [done|]. by rewrite Hs.
Qed.

Lemma connection_args_edges_witness :
  a_port (connection_args url0 opts0) = 3306
  ∧ a_database (connection_args url0 opts0) = "tooz"
  ∧ (a_unix_socket (connection_args url0 (mk_options (Some ""))) = None
     ∧ a_host (connection_args url0 (mk_options (Some ""))) = Some "db.example")
  ∧ (a_unix_socket (connection_args url0 (mk_options (Some "/run/mysql.sock")))
     = Some "/run/mysql.sock"
     ∧ a_host (connection_args url0 (mk_options (Some "/run/mysql.sock"))) = None).
Proof.
  destruct (connection_args_edges url0 opts0) as (Hport & _ & Hdb & _).
  destruct (connection_args_edges url0 (mk_options (Some ""))) as (_ & _ & _ & _ & Hhost & _).
  destruct (connection_args_edges url0 (mk_options (Some "/run/mysql.sock")))
    as (_ & _ & _ & _ & _ & Hsock).
  split; [|split; [|split]].
  - apply Hport. by left.
  - by eapply Hdb.
  - apply Hhost. by right.
  - apply Hsock; [reflexivity | discriminate].
Defined.

(** When the server refuses the connection, [_start] and [get_lock] raise
    ToozConnectionError wrapping the refusal; no connection object is made,
    the coordinator stays without a connection and no handle comes back. *)
Theorem connect_refused coord w name :
  server_up w = false →
  MySQLDriver_start (coord, w)
  = (Raise (ToozConnectionError CONN_HOST_ERROR), (coord, w))
  ∧ MySQLDriver_get_lock name (coord, w)
    = (Raise (ToozConnectionError CONN_HOST_ERROR), (coord, w)).
Proof.
  intros Hdown.
  unfold MySQLDriver_start, MySQLDriver_get_lock, MySQLLock_init, get_connection, Connect.
  by rewrite Hdown.
Qed.

Lemma connect_refused_witness :
  MySQLDriver_start (coord_new, set_server false world_boot)
  = (Raise (ToozConnectionError CONN_HOST_ERROR), (coord_new, set_server false world_boot))
  ∧ MySQLDriver_get_lock "a" (coord_new, set_server false world_boot)
    = (Raise (ToozConnectionError CONN_HOST_ERROR), (coord_new, set_server false world_boot)).
Proof. apply (connect_refused coord_new (set_server false world_boot) "a"). reflexivity. Defined.

(** ** How the calls change the coordinator *)

Lemma lock_coord blocking self s :
  let r := _lock blocking self s in
  (fst r = Return true ∧ acquired self (fst s) = false
   ∧ fst (snd r) = set_acquired_locks (_acquired_locks (fst s) ++ [self]) (fst s))
  ∨ (fst r ≠ Return true ∧ fst (snd r) = fst s).
Proof.
  destruct s as [coord w]. unfold _lock, _lock_try. cbn.
  destruct (acquired self coord) eqn:Ha.
  { right. by destruct blocking. }
  destruct (execute _ (INSERT _ _) w) as [[e|[]] w1]; [|by left].
  right. destruct (err_class e); [| done | |].
  - by destruct (execute _ CREATE_TABLE w1) as [[e2|[]] w2].
  - by destruct (connect _ w1) as [[e2|[]] w2].
  - by destruct (connect _ w1) as [[e2|[]] w2].
Qed.

Lemma release_coord self s :
  let r := MySQLLock_release self s in
  (fst r = Return true
   ∧ ∃ ls, list_remove_first self (_acquired_locks (fst s)) = Some ls
           ∧ fst (snd r) = set_acquired_locks ls (fst s))
  ∨ (fst r ≠ Return true ∧ fst (snd r) = fst s).
Proof.
  destruct s as [coord w]. unfold MySQLLock_release. cbn.
  destruct (acquired self coord) eqn:Ha; cbn; [|by right].
  destruct (execute _ _ w) as [[e|[]] w1].
  - right. by destruct (connect _ w1) as [[e2|[]] w2].
  - destruct (list_remove_first _ _) as [ls|] eqn:Hls; [|by right].
    left. split; [done|]. by exists ls.
Qed.

Lemma acquire_coord fuel deadline blocking self s o s' :
  MySQLLock_acquire fuel deadline blocking self s = Some (o, s') →
  (o = Return true ∧ acquired self (fst s) = false
   ∧ fst s' = set_acquired_locks (_acquired_locks (fst s) ++ [self]) (fst s))
  ∨ (o ≠ Return true ∧ fst s' = fst s).
Proof.
  intros Hacq. unfold MySQLLock_acquire in Hacq.
  apply (retry_last (λ s0, fst s0 = fst s)) in Hacq; [| |done].
  - destruct Hacq as (s0 & Hs0 & [[Hl _]|[Hl ->]]);
      pose proof (lock_coord blocking self s0) as Hc; rewrite Hl in Hc;
      cbn in Hc; rewrite Hs0 in Hc; [done|].
    right. split; [done|]. by destruct Hc as [[? _]|[_ ?]].
  - intros s0 s1 Hs0 Hl. pose proof (lock_coord blocking self s0) as Hc.
    rewrite Hl in Hc. cbn in Hc. destruct Hc as [[? _]|[_ ?]]; congruence.
Qed.

Lemma list_remove_first_elem_of x l ls z :
  list_remove_first x l = Some ls → z ∈ ls → z ∈ l.
Proof.
  revert ls. induction l as [|y l IH]; intros ls; cbn; [done|].
  destruct (decide (y = x)) as [->|Hne].
  - intros [= <-] Hz. by apply elem_of_cons; right.
  - destruct (list_remove_first x l) as [r|]; [|done].
    intros [= <-] [->|Hz]%elem_of_cons; apply elem_of_cons; [by left|].
    right. by apply (IH r).
Qed.

Lemma list_remove_first_keeps_NoDup x l ls :
  NoDup l → list_remove_first x l = Some ls → NoDup ls.
Proof.
  revert ls. induction l as [|y l IH]; intros ls Hnd; cbn; [done|].
  apply NoDup_cons in Hnd as [Hy Hnd].
  destruct (decide (y = x)) as [->|Hne].
  - by intros [= <-].
  - destruct (list_remove_first x l) as [r|] eqn:Hr; [|done].
    intros [= <-]. apply NoDup_cons. split; [|by apply IH].
    intros Hin. apply Hy. by eapply list_remove_first_elem_of.
Qed.


(** A loop over the held locks keeps what each round keeps. *)
Lemma for_acquired_locks_keeps {A} (P : state → Prop)
    (body : MySQLLock → state → outcome A * state) :
  (∀ l s, P s → P (snd (body l s))) →
  ∀ fuel i s s', P s → for_acquired_locks fuel body i s = Some s' → P s'.
Proof.
  intros Hbody. induction fuel as [|fuel IH]; intros i s s' HP; cbn.
  - destruct (_ !! i); [done|]. by intros [= <-].
  - destruct (_ !! i); [|by intros [= <-]]. apply IH. by apply Hbody.
Qed.



(** The list of held locks never holds a handle twice: acquire, release and
    [_stop] keep it free of duplicates. *)
Theorem held_locks_stay_distinct :
  (∀ fuel deadline blocking self s o s',
     NoDup (_acquired_locks (fst s)) →
     MySQLLock_acquire fuel deadline blocking self s = Some (o, s') →
     NoDup (_acquired_locks (fst s')))
  ∧ (∀ self s,
       NoDup (_acquired_locks (fst s)) →
       NoDup (_acquired_locks (fst (snd (MySQLLock_release self s)))))
  ∧ (∀ s r s',
       NoDup (_acquired_locks (fst s)) →
       MySQLDriver_stop s = Some (r, s') →
       NoDup (_acquired_locks (fst s'))).
Proof.
  assert (∀ self s,
       NoDup (_acquired_locks (fst s)) →
       NoDup (_acquired_locks (fst (snd (MySQLLock_release self s))))) as Hrel.
  { intros self s Hnd. destruct (release_coord self s) as [(_ & ls & Hls & ->)|[_ ->]];
      [|done]. cbn. by eapply list_remove_first_keeps_NoDup. }
  split; [|split; [done|]].
  - intros fuel deadline blocking self s o s' Hnd Hacq.
    destruct (acquire_coord _ _ _ _ _ _ _ Hacq) as [(_ & Hna & ->)|[_ ->]]; [|done].
    cbn. apply NoDup_app. split; [done|]. split; [|apply NoDup_singleton].
    intros x Hx ->%list_elem_of_singleton. by apply acquired_false in Hna.
  - intros s r s' Hnd. unfold MySQLDriver_stop.
    destruct (for_acquired_locks _ _ _ _) as [[d w]|] eqn:Hfor; [|done].
    apply (for_acquired_locks_keeps (λ s0, NoDup (_acquired_locks (fst s0))))
      in Hfor; [|by auto|done].
    cbn in Hfor. by destruct (_conn d); intros [= <- <-].
Qed.

Lemma held_locks_stay_distinct_witness :
  NoDup (_acquired_locks (fst (coord_a_holding,
           set_table (Some [row_a]) (set_log [(1, INSERT "a" "member-a")] world_empty))))
  ∧ NoDup (_acquired_locks
             (fst (snd (MySQLLock_release lock_a (coord_a_holding, world_a)))))
  ∧ NoDup (_acquired_locks (fst (set_acquired_locks [lock_a2] coord_a,
           mk_world (Some [row_b2])
             [conn_lost; conn_up; conn_up; conn_up; conn_up; conn_up] true 7
             [(1, DELETE "a" "member-a"); (5, DELETE "c" "member-a")] []))).
Proof.
  split; [|split].
  - apply (proj1 held_locks_stay_distinct 1 None false lock_a (coord_a, world_empty)
             (Return true)); [apply NoDup_nil_2 | reflexivity].
  - apply (proj1 (proj2 held_locks_stay_distinct) lock_a (coord_a_holding, world_a)).
    apply NoDup_singleton.
  - apply (proj2 (proj2 held_locks_stay_distinct) (coord_a_three, world_abc) (Return ())).
    + repeat (apply NoDup_cons_2; [by (intros H; repeat (apply elem_of_cons in H as [H|H]; [discriminate|]); by apply elem_of_nil in H)|]).
      apply NoDup_nil_2.
    + reflexivity.
Defined.

(** ** Acquire and release together *)










(** ** Handles *)




(** ** Stopping *)




Lemma is_alive_alter_ne b c c' w :
  c ≠ c' →
  is_alive c (set_conns (alter (set_alive b) c' (conns w)) w) = is_alive c w.
Proof. intros Hne. unfold is_alive. cbn. by rewrite list_lookup_alter_ne. Qed.

Lemma is_alive_alter_true c c' w :
  is_alive c w = true →
  is_alive c (set_conns (alter (set_alive true) c' (conns w)) w) = true.
Proof.
  intros Ha. destruct (decide (c = c')) as [->|Hne].
  - unfold is_alive in *. cbn. rewrite list_lookup_alter_eq.
    by destruct (conns w !! c').
  - by rewrite is_alive_alter_ne.
Qed.



Lemma release_keeps_alive self s c :
  quiet (snd s) → is_alive c (snd s) = true →
  quiet (snd (snd (MySQLLock_release self s)))
  ∧ is_alive c (snd (snd (MySQLLock_release self s))) = true.
Proof.
  destruct s as [coord w]. cbn. intros Hq Ha. unfold MySQLLock_release.
  destruct (acquired self coord); cbn; [|done].
  destruct (execute _ _ w) as [[e|[]] w1] eqn:E;
    pose proof (execute_frame _ _ _ _ _ Hq E) as (Hq1 & _ & Hc1 & _).
  - unfold connect. destruct (server_up w1); cbn.
    + split; [done|]. apply is_alive_alter_true. unfold is_alive in *. by rewrite Hc1.
    + split; [done|]. unfold is_alive in *. by rewrite Hc1.
  - assert (is_alive c w1 = true) by (unfold is_alive in *; by rewrite Hc1).
    by destruct (list_remove_first _ _).
Qed.

(** [_stop] closes the coordinator's connection and no other: with no other
    client acting, a connection that was open before [_stop], such as the
    one a lock handle opened for itself, is still open after it. *)
Theorem stop_leaves_other_connections_open s r s' c :
  quiet (snd s) → MySQLDriver_stop s = Some (r, s') →
  _conn (fst s) ≠ Some c → is_alive c (snd s) = true →
  is_alive c (snd s') = true.
Proof.
  intros Hq Hstop Hc Ha. unfold MySQLDriver_stop in Hstop.
  destruct (for_acquired_locks _ _ _ _) as [[d w]|] eqn:Hfor; [|done].
  apply (for_acquired_locks_keeps
           (λ s0, _conn (fst s0) = _conn (fst s) ∧ quiet (snd s0)
                  ∧ is_alive c (snd s0) = true)) in Hfor; [| |done].
  - cbn in Hfor. destruct Hfor as (Hd & _ & Ha').
    destruct (_conn d) as [c0|]; injection Hstop as <- <-; [|done].
    cbn. unfold close. rewrite is_alive_alter_ne; [done|]. congruence.
  - intros l s0 (Hd & Hq0 & Ha0).
    destruct (release_keeps_alive l s0 c Hq0 Ha0) as [Hq1 Ha1].
    split; [|done]. rewrite <-Hd.
    by destruct (release_coord l s0) as [(_ & ls & _ & ->)|[_ ->]].
Qed.

Lemma stop_leaves_other_connections_open_witness :
  is_alive 1
    (snd (set_acquired_locks [lock_a2] coord_a,
          mk_world (Some [row_b2])
            [conn_lost; conn_up; conn_up; conn_up; conn_up; conn_up] true 7
            [(1, DELETE "a" "member-a"); (5, DELETE "c" "member-a")] []))
  = true.
Proof.
  apply (stop_leaves_other_connections_open (coord_a_three, world_abc) (Return ()));
    try reflexivity.
  discriminate.
Defined.

(** The table keeps distinct names through release and through [_stop],
    whatever other clients do in between. *)
Theorem names_stay_unique_on_release :
  (∀ self s,
     unique_names (snd s) → unique_names (snd (snd (MySQLLock_release self s))))
  ∧ (∀ s r s',
       unique_names (snd s) → MySQLDriver_stop s = Some (r, s') →
       unique_names (snd s')).
Proof.
  assert (∀ self s,
     unique_names (snd s) → unique_names (snd (snd (MySQLLock_release self s))))
    as Hrel.
  { intros self [coord w]. cbn. intros Hu. unfold MySQLLock_release.
    destruct (acquired self coord); cbn; [|done].
    pose proof (execute_unique (l_conn self) (DELETE (l_name self) (_member_id coord)) w Hu) as H1.
    destruct (execute _ _ w) as [[e|[]] w1]; cbn in H1.
    - pose proof (connect_unique (l_conn self) w1 H1) as H2.
      by destruct (connect _ w1) as [[e2|[]] w2].
    - by destruct (list_remove_first _ _). }
  split; [done|].
  intros s r s' Hu. unfold MySQLDriver_stop.
  destruct (for_acquired_locks _ _ _ _) as [[d w]|] eqn:Hfor; [|done].
  apply (for_acquired_locks_keeps (λ s0, unique_names (snd s0))) in Hfor;
    [|by auto|done].
  cbn in Hfor. by destruct (_conn d); intros [= <- <-].
Qed.

Lemma names_stay_unique_on_release_witness :
  unique_names (snd (snd (MySQLLock_release lock_a (coord_a_holding, world_a))))
  ∧ unique_names
      (snd (set_acquired_locks [lock_a2] coord_a,
            mk_world (Some [row_b2])
              [conn_lost; conn_up; conn_up; conn_up; conn_up; conn_up] true 7
              [(1, DELETE "a" "member-a"); (5, DELETE "c" "member-a")] [])).
Proof.
  split.
  - apply (proj1 names_stay_unique_on_release lock_a (coord_a_holding, world_a)).
    unfold unique_names. cbn. apply NoDup_singleton.
  - apply (proj2 names_stay_unique_on_release (coord_a_three, world_abc) (Return ()));
      [|reflexivity].
    apply (bool_decide_unpack (NoDup ["a"; "b"; "c"])). reflexivity.
Defined.

(** ** Lost connections *)







(** When the statement fails over a lost connection and the server cannot be
    reached either, release and acquire raise ToozError; its cause is the
    error of the reconnect, not the error of the statement, and neither the
    table nor the list of held locks changes. *)
Theorem unreachable_server_raises_ToozError self coord w :
  quiet w → is_alive (l_conn self) w = false → server_up w = false →
  (acquired self coord = true →
     MySQLLock_release self (coord, w)
     = (Raise (ToozError CONN_HOST_ERROR),
        (coord,
         set_log (log w ++ [(l_conn self, DELETE (l_name self) (_member_id coord))]) w)))
  ∧ (acquired self coord = false →
     ∀ fuel deadline blocking,
       MySQLLock_acquire (S fuel) deadline blocking self (coord, w)
       = Some (Raise (ToozError CONN_HOST_ERROR),
               (coord,
                set_log (log w ++ [(l_conn self, INSERT (l_name self) (_member_id coord))]) w))).
Proof.
  intros Hq Hal Hdown. split.
  - intros Ha. unfold MySQLLock_release.
    rewrite Ha, execute_quiet by done. cbn. rewrite Hal.
    unfold connect. cbn. by rewrite Hdown.
  - intros Hna fuel deadline blocking. apply retry_return; [|done].
    unfold _lock, _lock_try. rewrite Hna, execute_quiet by done. cbn. rewrite Hal. cbn.
    unfold connect. cbn. by rewrite Hdown.
Qed.

Lemma unreachable_server_raises_ToozError_witness :
  MySQLLock_release lock_a (coord_a_holding, set_server false world_a_lost)
  = (Raise (ToozError CONN_HOST_ERROR),
     (coord_a_holding,
      set_log [(1, DELETE "a" "member-a")] (set_server false world_a_lost)))
  ∧ MySQLLock_acquire 1 None true lock_a (coord_a, set_server false world_a_lost)
    = Some (Raise (ToozError CONN_HOST_ERROR),
            (coord_a,
             set_log [(1, INSERT "a" "member-a")] (set_server false world_a_lost))).
Proof.
  split.
  - apply (proj1 (unreachable_server_raises_ToozError lock_a coord_a_holding
                    (set_server false world_a_lost) eq_refl eq_refl eq_refl)).
    reflexivity.
  - apply (proj2 (unreachable_server_raises_ToozError lock_a coord_a
                    (set_server false world_a_lost) eq_refl eq_refl eq_refl)).
    reflexivity.
Defined.


